(** * The launcher: port allocation, process launch, status and stop

    A shallow embedding of [launcher.py]: the module-level dictionary
    [launched_apps], the port scan [find_free_port], and the three
    operations [launch_app], [get_app_status] and [stop_app].

    The program talks to its host (sockets, the file system, the process
    table, the clock).  What the host answers is a [Host] record, quantified
    over in every theorem; what the program changes is a [State], threaded
    through a small state-and-exception monad [M]. *)

From stdpp Require Import gmap strings list fin_maps pretty.

Open Scope string_scope.
Open Scope list_scope.
Open Scope Z_scope.

(** ** Python values and exceptions *)

(** The values stored in the result dictionaries. *)
Inductive value :=
| VNone
| VInt (n : Z)
| VStr (s : string).

(** A result dictionary, in the order its literal lists the keys. *)
Definition dict := list (string * value).

Fixpoint get (key : string) (d : dict) : option value :=
  match d with
  | [] => None
  | (k, v) :: rest => if String.eqb k key then Some v else get key rest
  end.

(** [str(n)] on an [int]. *)
Definition str (n : Z) : string := pretty n.

(** The exception classes the launcher meets.  [OSError] stands for the
    class and its subclasses; every class below derives from [Exception]. *)
Inductive exn :=
| Exception (msg : string)
| OSError (msg : string)
| OverflowError (msg : string)
| OtherError (cls msg : string).

(** [str(e)]. *)
Definition str_exn (e : exn) : string :=
  match e with
  | Exception m | OSError m | OverflowError m | OtherError _ m => m
  end.

Inductive result (A : Type) :=
| Ok (a : A)
| Raise (e : exn).
Arguments Ok {A} a.
Arguments Raise {A} e.

(** ** The host *)

(** What [subprocess.Popen] does with a command line: it raises, or it
    creates a child.  A child is described by what it does when it is sent
    SIGTERM: [Some c] when it terminates with return code [c] within the
    grace period, [None] when it is still alive after it. *)
Inductive spawn_outcome :=
| SpawnRaises (e : exn)
| Spawned (on_sigterm : option Z).

(** The host as the launcher sees it at one moment. *)
Record Host := {
  system : string;                          (* platform.system() *)
  path_join : string -> string -> string;   (* os.path.join *)
  path_exists : string -> bool;             (* os.path.exists *)
  environ : gmap string string;             (* os.environ *)
  bindable : Z -> bool;                     (* loopback ports no other process holds *)
  popen : list string -> gmap string string -> Z -> spawn_outcome
}.

(** [posixpath.join] on two components. *)
Definition posixpath_join (a b : string) : string :=
  if String.prefix "/" b then b
  else if String.eqb a "" || String.eqb (String.substring (String.length a - 1) 1 a) "/"
       then a +:+ b
       else a +:+ "/" +:+ b.

(** ** The state *)

Definition SIGTERM : Z := 15.
Definition SIGKILL : Z := 9.
Definition CREATE_NO_WINDOW : Z := 134217728.

(** A child process, as the operating system holds it: how it was started,
    the signals it was sent (oldest first), and its return code once it has
    terminated. *)
Record Proc := {
  argv : list string;
  penv : gmap string string;
  creationflags : Z;
  on_sigterm : option Z;
  signals : list Z;
  returncode : option Z
}.

(** A value of [launched_apps]: [{"process": ..., "port": ..., "status": ...}].
    The process handle is the index of the child in the process table. *)
Record LaunchRecord := {
  process : nat;
  port : Z;
  status : string
}.

Record State := {
  launched_apps : gmap string LaunchRecord;  (* the module global *)
  children : list Proc;                      (* the process table *)
  bound : gset Z;                            (* loopback ports this process holds bound *)
  clock : Z                                  (* time slept so far *)
}.

Definition initial : State :=
  {| launched_apps := ∅; children := []; bound := ∅; clock := 0 |}.

Definition set_launched_apps (f : gmap string LaunchRecord -> gmap string LaunchRecord)
    (st : State) : State :=
  {| launched_apps := f (launched_apps st); children := children st;
     bound := bound st; clock := clock st |}.

Definition set_children (f : list Proc -> list Proc) (st : State) : State :=
  {| launched_apps := launched_apps st; children := f (children st);
     bound := bound st; clock := clock st |}.

Definition set_bound (f : gset Z -> gset Z) (st : State) : State :=
  {| launched_apps := launched_apps st; children := children st;
     bound := f (bound st); clock := clock st |}.

Definition set_clock (f : Z -> Z) (st : State) : State :=
  {| launched_apps := launched_apps st; children := children st;
     bound := bound st; clock := f (clock st) |}.

Definition set_status (s : string) (r : LaunchRecord) : LaunchRecord :=
  {| process := process r; port := port r; status := s |}.

(** ** The monad: state passing with exceptions *)

Definition M (A : Type) : Type := State -> result A * State.

#[global] Instance M_ret : MRet M := fun A a st => (Ok a, st).

#[global] Instance M_bind : MBind M := fun A B f m st =>
  match m st with
  | (Ok a, st') => f a st'
  | (Raise e, st') => (Raise e, st')
  end.

Definition raise {A} (e : exn) : M A := fun st => (Raise e, st).

(** [try: body / except Exception as e: handler e]: every class of [exn]
    derives from [Exception], and the state changes made before the
    exception stay. *)
Definition try_except {A} (body : M A) (handler : exn -> M A) : M A := fun st =>
  match body st with
  | (Ok a, st') => (Ok a, st')
  | (Raise e, st') => handler e st'
  end.

Definition modify (f : State -> State) : M unit := fun st => (Ok tt, f st).

(** ** The port allocator *)

(** [range(a, b)]. *)
Definition range (a b : Z) : list Z := seqZ a (b - a).

Section Launcher.

Variable host : Host.

(** A bind on loopback succeeds when no other process holds the port and
    this process does not hold it either. *)
Definition can_bind (st : State) (port : Z) : bool :=
  bindable host port && bool_decide (port ∉ bound st).

(** [s.bind(("127.0.0.1", port))].  A port outside 0..65535 is refused
    with an [OverflowError] before the system is asked; a port that is
    taken gives an [OSError]. *)
Definition socket_bind (port : Z) : M unit := fun st =>
  if (port <? 0) || (65535 <? port)
  then (Raise (OverflowError "bind(): port must be 0-65535."), st)
  else if can_bind st port
  then (Ok tt, set_bound (fun b => {[port]} ∪ b) st)
  else (Raise (OSError "[Errno 98] Address already in use"), st).

(** Closing a socket releases the port it was bound to. *)
Definition socket_close (port : Z) (st : State) : State :=
  set_bound (fun b => b ∖ {[port]}) st.

(** One turn of the loop (lines 12-17): a fresh socket, one bind attempt.
    [Some port] is [return port], [None] is [continue]; leaving the [with]
    block closes the socket either way. *)
Definition probe (port : Z) : M (option Z) := fun st =>
  match socket_bind port st with
  | (Ok _, st1) => (Ok (Some port), socket_close port st1)
  | (Raise (OSError _), st1) => (Ok None, st1)
  | (Raise e, st1) => (Raise e, st1)
  end.

Fixpoint scan (ports : list Z) : M (option Z) :=
  match ports with
  | [] => mret None
  | port :: rest =>
      r ← probe port;
      match r with
      | Some p => mret (Some p)
      | None => scan rest
      end
  end.

Definition no_free_ports (start_port : Z) : exn :=
  Exception ("No free ports available between " +:+ str start_port
             +:+ " and " +:+ str 9000).

Definition find_free_port (start_port : Z) : M Z :=
  r ← scan (range start_port 9000);
  match r with
  | Some p => mret p
  | None => raise (no_free_ports start_port)
  end.

(** ** Child processes *)

(** [subprocess.Popen(args, env=env, stdout=DEVNULL, stderr=DEVNULL,
    creationflags=flags)]: the host decides whether the spawn raises; a
    child that is created is alive and gets the next free handle. *)
Definition Popen (args : list string) (env : gmap string string) (flags : Z) : M nat :=
  fun st =>
    match popen host args env flags with
    | SpawnRaises e => (Raise e, st)
    | Spawned b =>
        (Ok (length (children st)),
         set_children (fun cs => cs ++ [{| argv := args; penv := env;
                                            creationflags := flags; on_sigterm := b;
                                            signals := []; returncode := None |}]) st)
    end.

(** [process.poll()]: [None] while the child is alive, its return code
    once it has terminated. *)
Definition poll (h : nat) : M (option Z) := fun st =>
  (Ok (children st !! h ≫= returncode), st).

(** The return code of a child that was killed: minus the signal number on
    POSIX, the exit code handed to [TerminateProcess] on Windows. *)
Definition killed_returncode : Z :=
  if String.eqb (system host) "Windows" then 1 else - SIGKILL.

(** A signal reaches a child that is alive and is added to its log; a
    child that has terminated is sent nothing.  SIGKILL cannot be caught:
    the child is gone when its handle is polled next. *)
Definition deliver (sig : Z) (p : Proc) : Proc :=
  match returncode p with
  | Some _ => p
  | None =>
      {| argv := argv p; penv := penv p; creationflags := creationflags p;
         on_sigterm := on_sigterm p; signals := signals p ++ [sig];
         returncode := if sig =? SIGKILL then Some killed_returncode else None |}
  end.

Definition send_signal (h : nat) (sig : Z) : M unit :=
  modify (set_children (alter (deliver sig) h)).

Definition terminate (h : nat) : M unit := send_signal h SIGTERM.
Definition kill (h : nat) : M unit := send_signal h SIGKILL.

(** What a child does while the parent sleeps: one that is alive and was
    sent SIGTERM terminates when its [on_sigterm] says so. *)
Definition grace (p : Proc) : Proc :=
  match returncode p, on_sigterm p with
  | None, Some c =>
      if bool_decide (SIGTERM ∈ signals p)
      then {| argv := argv p; penv := penv p; creationflags := creationflags p;
              on_sigterm := on_sigterm p; signals := signals p;
              returncode := Some c |}
      else p
  | _, _ => p
  end.

(** [time.sleep(secs)]. *)
Definition sleep (secs : Z) : M unit :=
  modify (fun st => set_clock (Z.add secs) (set_children (fmap grace) st)).

(** ** The registry operations *)

(** [launched_apps.get(app_name)], for [app_name in launched_apps] followed
    by [launched_apps[app_name]]. *)
Definition lookup_app (app_name : string) : M (option LaunchRecord) := fun st =>
  (Ok (launched_apps st !! app_name), st).

Definition launch_app (app_name : string) : M dict :=
  let base_path := path_join host "apps" app_name in
  let current_platform := system host in
  let resolved :=
    if String.eqb current_platform "Windows"
    then Some (path_join host base_path "run.bat", ["cmd"; "/C"])
    else if bool_decide (current_platform ∈ ["Darwin"; "Linux"])
    then Some (path_join host base_path "run.sh", ["sh"])
    else None in
  match resolved with
  | None =>
      mret [("status", VStr "error");
            ("message", VStr ("Unsupported operating system: " +:+ current_platform))]
  | Some (script_path, command_executor) =>
      if negb (path_exists host script_path)
      then mret [("status", VStr "error");
                 ("message", VStr ("Startup script not found for " +:+ app_name
                                   +:+ " at " +:+ script_path))]
      else
        try_except
          (port ← find_free_port 8000;
           let env := <["PORT" := str port]> (environ host) in
           process ← Popen (command_executor ++ [script_path]) env
                       (if String.eqb current_platform "Windows"
                        then CREATE_NO_WINDOW else 0);
           modify (set_launched_apps
                     <[app_name := {| process := process; port := port;
                                      status := "running" |}]>);;
           mret [("status", VStr "success");
                 ("message", VStr (app_name +:+ " launched on port " +:+ str port))])
          (fun e =>
             mret [("status", VStr "error");
                   ("message", VStr ("Failed to launch " +:+ app_name +:+ ": "
                                     +:+ str_exn e))])
  end.

(** The value of [exit_code] in the result: [None] or an [int]. *)
Definition of_returncode (r : option Z) : value :=
  match r with
  | None => VNone
  | Some c => VInt c
  end.

Definition get_app_status (app_name : string) : M dict :=
  r ← lookup_app app_name;
  match r with
  | Some proc_info =>
      alive ← poll (process proc_info);
      match alive with
      | None =>
          mret [("status", VStr "running"); ("port", VInt (port proc_info))]
      | Some _ =>
          exit_code ← poll (process proc_info);
          modify (set_launched_apps (alter (set_status "exited") app_name));;
          mret [("status", VStr "exited"); ("port", VInt (port proc_info));
                ("exit_code", of_returncode exit_code)]
      end
  | None => mret [("status", VStr "not_launched")]
  end.

Definition stop_app (app_name : string) : M dict :=
  r ← lookup_app app_name;
  match r with
  | Some proc_info =>
      alive ← poll (process proc_info);
      match alive with
      | None =>
          terminate (process proc_info);;
          sleep 1;;
          still ← poll (process proc_info);
          match still with
          | None => kill (process proc_info)
          | Some _ => mret tt
          end;;
          modify (set_launched_apps (alter (set_status "stopped") app_name));;
          mret [("status", VStr "success");
                ("message", VStr (app_name +:+ " stopped."))]
      | Some _ =>
          mret [("status", VStr "not_running");
                ("message", VStr (app_name +:+ " is not running."))]
      end
  | None =>
      mret [("status", VStr "not_launched");
            ("message", VStr (app_name +:+ " was not launched."))]
  end.

End Launcher.

(** ** The environment *)

(** A child terminates by itself with return code [c]. *)
Definition exits (c : Z) (p : Proc) : Proc :=
  match returncode p with
  | Some _ => p
  | None =>
      {| argv := argv p; penv := penv p; creationflags := creationflags p;
         on_sigterm := on_sigterm p; signals := signals p; returncode := Some c |}
  end.

Definition child_exit (h : nat) (c : Z) (st : State) : State :=
  set_children (alter (exits c) h) st.

(** What happens over the life of the parent: calls of the three
    operations, each on the host as it is at that moment, and children
    that terminate by themselves in between. *)
Inductive event :=
| Launch (host : Host) (app_name : string)
| GetStatus (app_name : string)
| Stop (host : Host) (app_name : string)
| ChildExit (h : nat) (c : Z).

Definition step (st : State) (e : event) : State :=
  match e with
  | Launch host app_name => (launch_app host app_name st).2
  | GetStatus app_name => (get_app_status app_name st).2
  | Stop host app_name => (stop_app host app_name st).2
  | ChildExit h c => child_exit h c st
  end.

Definition run (evs : list event) (st : State) : State := foldl step st evs.

(** * Specification vocabulary *)

(** ** The port allocator *)

(** What is asked of [find_free_port start_port] run in [st]: the
    bind is released (the state is as before), and either the smallest
    port of [start_port, 9000) that can be bound is returned, or none can
    be bound and the exception naming the range is raised. *)
Definition allocates (host : Host) (st : State) (start_port : Z)
    (out : result Z * State) : Prop :=
  out.2 = st /\
  match out.1 with
  | Ok p => start_port <= p < 9000 /\ can_bind host st p = true /\
            forall q, start_port <= q < p -> can_bind host st q = false
  | Raise e => e = Exception ("No free ports available between "
                              +:+ str start_port +:+ " and 9000") /\
               forall q, start_port <= q < 9000 -> can_bind host st q = false
  end.

(** ** Results, children and the script *)

(** The script and the interpreter of lines 26-36. *)
Definition resolve (host : Host) (app_name : string) : option (string * list string) :=
  let base_path := path_join host "apps" app_name in
  if String.eqb (system host) "Windows"
  then Some (path_join host base_path "run.bat", ["cmd"; "/C"])
  else if bool_decide (system host ∈ ["Darwin"; "Linux"])
  then Some (path_join host base_path "run.sh", ["sh"])
  else None.

(** The four result dictionaries of [launch_app]. *)
Definition unsupported_platform_error (host : Host) : dict :=
  [("status", VStr "error");
   ("message", VStr ("Unsupported operating system: " +:+ system host))].

Definition script_not_found_error (app_name script_path : string) : dict :=
  [("status", VStr "error");
   ("message", VStr ("Startup script not found for " +:+ app_name
                     +:+ " at " +:+ script_path))].

Definition launch_failed_error (app_name : string) (e : exn) : dict :=
  [("status", VStr "error");
   ("message", VStr ("Failed to launch " +:+ app_name +:+ ": " +:+ str_exn e))].

Definition launch_success (app_name : string) (port : Z) : dict :=
  [("status", VStr "success");
   ("message", VStr (app_name +:+ " launched on port " +:+ str port))].

(** The child a successful [launch_app] adds to the process table. *)
Definition spawned_child (host : Host) (script : string) (exec : list string)
    (port : Z) (b : option Z) : Proc :=
  {| argv := exec ++ [script];
     penv := <["PORT" := str port]> (environ host);
     creationflags := if String.eqb (system host) "Windows" then CREATE_NO_WINDOW else 0;
     on_sigterm := b; signals := []; returncode := None |}.

(** The process table after the live child [h] was sent SIGTERM, given
    one time unit, polled again and sent SIGKILL if still alive
    (lines 72-75). *)
Definition stopped_children (host : Host) (h : nat) (cs : list Proc) : list Proc :=
  let cs1 := grace <$> alter (deliver host SIGTERM) h cs in
  match cs1 !! h ≫= returncode with
  | None => alter (deliver host SIGKILL) h cs1
  | Some _ => cs1
  end.

(** ** Launching *)

(** The failures of [launch_app], by the names the specification gives
    them, each with the result dictionary it is reported as. *)
Inductive launch_failure (host : Host) (app_name : string) (st : State) : dict -> Prop :=
| UnsupportedPlatformError :
    resolve host app_name = None ->
    launch_failure host app_name st (unsupported_platform_error host)
| ScriptNotFoundError script exec :
    resolve host app_name = Some (script, exec) ->
    path_exists host script = false ->
    launch_failure host app_name st (script_not_found_error app_name script)
| NoFreePortsError script exec :
    resolve host app_name = Some (script, exec) ->
    path_exists host script = true ->
    (forall q, 8000 <= q < 9000 -> can_bind host st q = false) ->
    launch_failure host app_name st
      (launch_failed_error app_name
         (Exception "No free ports available between 8000 and 9000"))
| SpawnError script exec p e :
    resolve host app_name = Some (script, exec) ->
    path_exists host script = true ->
    find_free_port host 8000 st = (Ok p, st) ->
    popen host (exec ++ [script]) (<["PORT" := str p]> (environ host))
      (if String.eqb (system host) "Windows" then CREATE_NO_WINDOW else 0)
    = SpawnRaises e ->
    launch_failure host app_name st (launch_failed_error app_name e).

(** A launch that goes through: the port, the child and the record. *)
Inductive launch_ok (host : Host) (app_name : string) (st : State) :
    dict -> State -> Prop :=
| Launched script exec p b :
    resolve host app_name = Some (script, exec) ->
    path_exists host script = true ->
    find_free_port host 8000 st = (Ok p, st) ->
    popen host (exec ++ [script]) (<["PORT" := str p]> (environ host))
      (if String.eqb (system host) "Windows" then CREATE_NO_WINDOW else 0)
    = Spawned b ->
    launch_ok host app_name st (launch_success app_name p)
      {| launched_apps :=
           <[app_name := {| process := length (children st); port := p;
                            status := "running" |}]> (launched_apps st);
         children := children st ++ [spawned_child host script exec p b];
         bound := bound st;
         clock := clock st |}.

(** ** Platforms *)

(** [launch_app] runs [script] through [exec].  A script that does not
    exist is reported by its path and nothing changes.  For a script
    that exists, once the scan has found the port [p], it is the command
    line [exec ++ [script]], with [PORT] set to [p] in the environment and
    the creation flags [flags], that is handed to [Popen]: when the host
    spawns it, the launch succeeds, the child with that command line is
    the one added to the process table and the record points at it; when
    the host refuses it, the launch fails with the exception's message.
    And a launch that succeeds has started exactly one child, with that
    command line and those flags. *)
Definition runs_script (host : Host) (app_name : string) (st : State)
    (script : string) (exec : list string) (flags : Z) : Prop :=
  (path_exists host script = false ->
   launch_app host app_name st = (Ok (script_not_found_error app_name script), st))
  /\ (forall p,
        path_exists host script = true ->
        find_free_port host 8000 st = (Ok p, st) ->
        match popen host (exec ++ [script]) (<["PORT" := str p]> (environ host)) flags
        with
        | Spawned b =>
            launch_app host app_name st
            = (Ok (launch_success app_name p),
               {| launched_apps :=
                    <[app_name := {| process := length (children st); port := p;
                                     status := "running" |}]> (launched_apps st);
                  children :=
                    children st
                    ++ [{| argv := exec ++ [script];
                           penv := <["PORT" := str p]> (environ host);
                           creationflags := flags; on_sigterm := b;
                           signals := []; returncode := None |}];
                  bound := bound st;
                  clock := clock st |})
        | SpawnRaises e =>
            launch_app host app_name st = (Ok (launch_failed_error app_name e), st)
        end)
  /\ (forall d st',
        launch_app host app_name st = (Ok d, st') ->
        get "status" d = Some (VStr "success") ->
        path_exists host script = true
        /\ exists child, children st' = children st ++ [child]
                         /\ argv child = exec ++ [script]
                         /\ creationflags child = flags).

(** ** The process table *)

(** A child that has terminated is never changed again. *)
Definition keeps_terminated (f : Proc -> Proc) : Prop :=
  forall p, is_Some (returncode p) -> f p = p.

(** [grows cs cs']: every child of [cs] is in [cs'] under the same
    handle, unchanged if it had terminated. *)
Definition grows (cs cs' : list Proc) : Prop :=
  forall h p, cs !! h = Some p ->
    exists p', cs' !! h = Some p' /\ (is_Some (returncode p) -> p' = p).

(** The child a stop was aimed at, afterwards: SIGTERM is in its log,
    followed by SIGKILL when it does not give in to SIGTERM, and it has
    terminated. *)
Definition stopped_child (host : Host) (p : Proc) : Proc :=
  {| argv := argv p; penv := penv p; creationflags := creationflags p;
     on_sigterm := on_sigterm p;
     signals := match on_sigterm p with
                | Some _ => signals p ++ [SIGTERM]
                | None => signals p ++ [SIGTERM; SIGKILL]
                end;
     returncode := match on_sigterm p with
                   | Some c => Some c
                   | None => Some (killed_returncode host)
                   end |}.

(** ** Histories and the invariant *)

(** The outcome of a poll: the return code of the child behind a
    handle, [None] while it is alive. *)
Definition polled (st : State) (h : nat) : option Z :=
  children st !! h ≫= returncode.

(** Every record of the registry points at a child of the process table;
    its status is one of the three, and a record that is [exited] or
    [stopped] points at a child that has terminated. *)
Definition record_ok (st : State) (r : LaunchRecord) : Prop :=
  exists p, children st !! process r = Some p /\
    (status r = "running"
     \/ ((status r = "exited" \/ status r = "stopped") /\ is_Some (returncode p))).

Definition consistent (st : State) : Prop :=
  forall name r, launched_apps st !! name = Some r -> record_ok st r.

(** An event that is not a launch of [name]. *)
Definition keeps_record (name : string) (e : event) : Prop :=
  match e with
  | Launch _ n => n <> name
  | _ => True
  end.

(** A call of [get_app_status] or [stop_app]. *)
Definition is_query (e : event) : Prop :=
  match e with
  | GetStatus _ | Stop _ _ => True
  | _ => False
  end.

(** ** Stopping *)

(** The record of [name] has port [pt] and points at a child that has
    terminated with return code [c]. *)
Definition terminated_record (st : State) (name : string) (pt c : Z) : Prop :=
  exists r p, launched_apps st !! name = Some r /\ port r = pt
    /\ children st !! process r = Some p /\ returncode p = Some c.

(** ** Status transitions *)

(** The status the registry holds for [name], if it holds a record. *)
Definition status_of (name : string) (st : State) : option string :=
  status <$> launched_apps st !! name.

(** ** Further vocabulary *)

(** The registry with every stored status rewritten by [f]; handles and
    ports are as they were. *)
Definition restatus (f : string -> string) (st : State) : State :=
  set_launched_apps (fmap (fun r => set_status (f (status r)) r)) st.


(** Every record points into the process table, and no two names share
    a child. *)
Definition handles_distinct (st : State) : Prop :=
  forall n1 n2 r1 r2,
    n1 <> n2 ->
    launched_apps st !! n1 = Some r1 -> launched_apps st !! n2 = Some r2 ->
    process r1 <> process r2.

(** ** Example hosts and states *)

(** A Linux host: scripts for ["Alpha"] and ["Gamma"], port 8000 taken, a
    child of ["Gamma"] that ignores SIGTERM and one of ["Alpha"] that
    gives in to it. *)
Definition linux_host : Host :=
  {| system := "Linux";
     path_join := posixpath_join;
     path_exists := fun p => bool_decide (p ∈ ["apps/Alpha/run.sh"; "apps/Gamma/run.sh"]);
     environ := {[ "HOME" := "/root" ]};
     bindable := fun p => negb (p =? 8000);
     popen := fun args _ _ =>
       if bool_decide (args = ["sh"; "apps/Gamma/run.sh"]) then Spawned None
       else Spawned (Some (-15)) |}.

(** The state after ["Alpha"] was launched on the example host. *)
Definition alpha_launched : State := (launch_app linux_host "Alpha" initial).2.

(** The example host once the script of ["Alpha"] is gone. *)
Definition linux_host_no_scripts : Host :=
  {| system := system linux_host;
     path_join := path_join linux_host;
     path_exists := fun _ => false;
     environ := environ linux_host;
     bindable := bindable linux_host;
     popen := popen linux_host |}.

(** A Windows host; its join is [ntpath.join] on relative components. *)
Definition windows_host : Host :=
  {| system := "Windows";
     path_join := fun a b => a +:+ "\" +:+ b;
     path_exists := fun p => bool_decide (p = "apps\Alpha\run.bat");
     environ := {[ "USERPROFILE" := "C:\Users\terra" ]};
     bindable := fun _ => true;
     popen := fun _ _ _ => Spawned (Some 1) |}.

(** A host whose [platform.system()] is none of the three. *)
Definition freebsd_host : Host :=
  {| system := "FreeBSD";
     path_join := posixpath_join;
     path_exists := fun _ => true;
     environ := ∅;
     bindable := fun _ => true;
     popen := fun _ _ _ => Spawned None |}.

(** The state after the child of ["Alpha"] has terminated by itself. *)
Definition alpha_exited : State := child_exit 0 0 alpha_launched.

(** The state after ["Gamma"], whose child ignores SIGTERM, was launched. *)
Definition gamma_launched : State := run [Launch linux_host "Gamma"] initial.

(** ["Alpha"] launched and then stopped. *)
Definition alpha_stopped : State :=
  run [Launch linux_host "Alpha"; Stop linux_host "Alpha"] initial.

(** The example host with every port of the range taken. *)
Definition crowded_host : Host :=
  {| system := system linux_host;
     path_join := path_join linux_host;
     path_exists := path_exists linux_host;
     environ := environ linux_host;
     bindable := fun _ => false;
     popen := popen linux_host |}.

(** The example host on which the interpreter cannot be started. *)
Definition no_shell_host : Host :=
  {| system := system linux_host;
     path_join := path_join linux_host;
     path_exists := path_exists linux_host;
     environ := environ linux_host;
     bindable := bindable linux_host;
     popen := fun _ _ _ =>
       SpawnRaises (OSError "[Errno 2] No such file or directory: 'sh'") |}.

(** A Linux host with a script outside [apps] and one directly in it. *)
Definition linux_host_srv : Host :=
  {| system := "Linux";
     path_join := posixpath_join;
     path_exists := fun p => bool_decide (p ∈ ["/srv/other/run.sh"; "apps/run.sh"]);
     environ := ∅;
     bindable := fun _ => true;
     popen := fun _ _ _ => Spawned None |}.

(** ["Alpha"] and ["Gamma"] launched one after the other. *)
Definition both_launched : list event :=
  [Launch linux_host "Alpha"; Launch linux_host "Gamma"].

(** * Properties *)

(** ** The port allocator *)

Lemma probe_valid (host : Host) (st : State) (port : Z) :
  0 <= port <= 65535 ->
  probe host port st
  = (Ok (if can_bind host st port then Some port else None), st).
Proof.
  intros Hp. unfold probe, socket_bind.
  assert ((port <? 0) || (65535 <? port) = false) as ->.
  { apply orb_false_intro; apply Z.ltb_ge; lia. }
  destruct (can_bind host st port) eqn:E; [|done].
  f_equal. unfold socket_close, set_bound; simpl.
  apply andb_prop in E as [_ E]. apply bool_decide_eq_true in E.
  destruct st as [apps procs b t]; simpl in *. f_equal.
  apply set_eq. intros x. rewrite elem_of_difference, elem_of_union, elem_of_singleton.
  split; [tauto|]. intros Hx. split; [by right|]. by intros ->.
Qed.

Lemma probe_invalid (host : Host) (st : State) (port : Z) :
  port < 0 ->
  probe host port st = (Raise (OverflowError "bind(): port must be 0-65535."), st).
Proof.
  intros Hp. unfold probe, socket_bind.
  by assert ((port <? 0) || (65535 <? port) = true) as ->
    by (apply orb_true_intro; left; apply Z.ltb_lt; lia).
Qed.

(** The scan of [n] consecutive valid ports: the state is as before, and
    the answer is the first port that can be bound, if there is one. *)
Lemma scan_seqZ (host : Host) (st : State) (n : nat) : forall start,
  0 <= start -> start + Z.of_nat n <= 65536 ->
  exists r, scan host (seqZ start (Z.of_nat n)) st = (Ok r, st) /\
    match r with
    | Some p => start <= p < start + Z.of_nat n /\ can_bind host st p = true /\
                forall q, start <= q < p -> can_bind host st q = false
    | None => forall q, start <= q < start + Z.of_nat n -> can_bind host st q = false
    end.
Proof.
  induction n as [|n IH]; intros start H0 Hn.
  - exists None. split; [done | intros; lia].
  - rewrite seqZ_cons by lia. cbn [scan]. unfold mbind, M_bind.
    rewrite probe_valid by lia.
    destruct (can_bind host st start) eqn:E.
    + exists (Some start). repeat split; try done; try lia.
    + replace (Z.pred (Z.of_nat (S n))) with (Z.of_nat n) by lia.
      destruct (IH (Z.succ start)) as (r & -> & Hr); [lia..|].
      exists r. split; [done|]. destruct r as [p|].
      * destruct Hr as (? & ? & Hmin). repeat split; try done; try lia.
        intros q Hq. destruct (decide (q = start)) as [->|]; [done|].
        apply Hmin; lia.
      * intros q Hq. destruct (decide (q = start)) as [->|]; [done|].
        apply Hr; lia.
Qed.

(** The scan from the default start port. *)
Lemma find_free_port_default (host : Host) (st : State) :
  allocates host st 8000 (find_free_port host 8000 st).
Proof.
  unfold find_free_port, range, mbind, M_bind.
  destruct (scan_seqZ host st 1000 8000) as (r & E & Hr); [lia..|].
  change (Z.of_nat 1000) with (9000 - 8000) in E. rewrite E.
  destruct r as [p|]; (split; [done|]); simpl; [done|].
  split; [done|]. intros q Hq. apply Hr. lia.
Qed.

Lemma find_free_port_negative (host : Host) (st : State) (start_port : Z) :
  start_port < 0 ->
  find_free_port host start_port st
  = (Raise (OverflowError "bind(): port must be 0-65535."), st).
Proof.
  intros Hneg. unfold find_free_port, range, mbind, M_bind.
  rewrite seqZ_cons by lia. cbn [scan]. unfold mbind, M_bind.
  by rewrite probe_invalid.
Qed.

(** C1, as amended: for every start port that is not negative and every
    host, [find_free_port] leaves no socket bound and returns the smallest
    port of [start_port, 9000) that can be bound; when none can be bound,
    the empty range of a start port of 9000 or more included, it raises
    the exception whose message names [start_port] and 9000. *)
Theorem find_free_port_smallest_bindable (host : Host) (st : State) (start_port : Z) :
  0 <= start_port ->
  allocates host st start_port (find_free_port host start_port st).
Proof.
  intros H0. unfold find_free_port, range, mbind, M_bind.
  destruct (decide (9000 <= start_port)) as [Hge|Hlt].
  - rewrite seqZ_nil by lia. split; [done|]. simpl. split; [done|]. intros; lia.
  - destruct (scan_seqZ host st (Z.to_nat (9000 - start_port)) start_port)
      as (r & E & Hr); [lia..|].
    rewrite Z2Nat.id in E by lia. rewrite E.
    destruct r as [p|]; (split; [done|]); simpl.
    + destruct Hr as (? & ? & ?). repeat split; try done; lia.
    + split; [done|]. intros q Hq. apply Hr. lia.
Qed.


Lemma find_free_port_smallest_bindable_witness :
  0 <= 8000 /\
  allocates linux_host initial 8000 (Ok 8001, initial) /\
  allocates linux_host initial 9000
    (Raise (Exception "No free ports available between 9000 and 9000"), initial).
Proof.
  split; [lia|]. split.
  - exact (find_free_port_smallest_bindable linux_host initial 8000 ltac:(lia)).
  - exact (find_free_port_smallest_bindable linux_host initial 9000 ltac:(lia)).
Defined.

(** C1, as stated, fails at a negative start port: the first bind raises
    an [OverflowError], which the handler of line 16 does not catch, so
    neither a port nor the exception naming the range comes out. *)
Lemma find_free_port_negative_start :
  find_free_port linux_host (-1) initial
  = (Raise (OverflowError "bind(): port must be 0-65535."), initial)
  /\ ~ allocates linux_host initial (-1) (find_free_port linux_host (-1) initial).
Proof.
  split; [by apply find_free_port_negative|].
  rewrite find_free_port_negative by lia. intros [_ [E _]]. discriminate E.
Qed.

(** ** The three operations, flattened *)

Lemma M_bind_unfold {A B : Type} (m : M A) (f : A -> M B) (st : State) :
  (m ≫= f) st
  = match m st with
    | (Ok a, st') => f a st'
    | (Raise e, st') => (Raise e, st')
    end.
Proof. reflexivity. Qed.

Ltac run_M :=
  repeat (first [ rewrite M_bind_unfold
                | progress unfold modify, mret, M_ret, raise ];
          cbn beta iota).

Lemma launch_app_unfold (host : Host) (app_name : string) (st : State) :
  launch_app host app_name st =
  match resolve host app_name with
  | None => (Ok (unsupported_platform_error host), st)
  | Some (script, exec) =>
      if path_exists host script then
        match find_free_port host 8000 st with
        | (Raise e, st1) => (Ok (launch_failed_error app_name e), st1)
        | (Ok p, st1) =>
            match popen host (exec ++ [script]) (<["PORT" := str p]> (environ host))
                    (if String.eqb (system host) "Windows" then CREATE_NO_WINDOW else 0)
            with
            | SpawnRaises e => (Ok (launch_failed_error app_name e), st1)
            | Spawned b =>
                (Ok (launch_success app_name p),
                 set_launched_apps
                   <[app_name := {| process := length (children st1); port := p;
                                    status := "running" |}]>
                   (set_children (fun cs => cs ++ [spawned_child host script exec p b]) st1))
            end
        end
      else (Ok (script_not_found_error app_name script), st)
  end.
Proof.
  unfold launch_app, resolve.
  destruct (String.eqb (system host) "Windows") eqn:Ew;
    [|destruct (bool_decide (system host ∈ ["Darwin"; "Linux"])) eqn:Eu]; [| |done];
    (match goal with |- context [path_exists host ?p] =>
       destruct (path_exists host p); [|done] end);
    unfold try_except, mbind, M_bind, Popen, modify, mret, M_ret, spawned_child;
    cbn [negb]; rewrite ?Ew;
    destruct (find_free_port host 8000 st) as [[p|e] st1]; try done;
    (match goal with |- context [popen host ?a ?b ?c] =>
       destruct (popen host a b c); done end).
Qed.

Lemma get_app_status_unfold (app_name : string) (st : State) :
  get_app_status app_name st =
  match launched_apps st !! app_name with
  | None => (Ok [("status", VStr "not_launched")], st)
  | Some r =>
      match children st !! process r ≫= returncode with
      | None => (Ok [("status", VStr "running"); ("port", VInt (port r))], st)
      | Some c =>
          (Ok [("status", VStr "exited"); ("port", VInt (port r));
               ("exit_code", VInt c)],
           set_launched_apps (alter (set_status "exited") app_name) st)
      end
  end.
Proof.
  unfold get_app_status, lookup_app. run_M.
  destruct (launched_apps st !! app_name) as [r|]; [|done].
  unfold poll. run_M.
  destruct (children st !! process r ≫= returncode) eqn:E; [|done].
  run_M. by rewrite E.
Qed.

Lemma stop_app_unfold (host : Host) (app_name : string) (st : State) :
  stop_app host app_name st =
  match launched_apps st !! app_name with
  | None =>
      (Ok [("status", VStr "not_launched");
           ("message", VStr (app_name +:+ " was not launched."))], st)
  | Some r =>
      match children st !! process r ≫= returncode with
      | Some _ =>
          (Ok [("status", VStr "not_running");
               ("message", VStr (app_name +:+ " is not running."))], st)
      | None =>
          (Ok [("status", VStr "success");
               ("message", VStr (app_name +:+ " stopped."))],
           {| launched_apps := alter (set_status "stopped") app_name (launched_apps st);
              children := stopped_children host (process r) (children st);
              bound := bound st;
              clock := 1 + clock st |})
      end
  end.
Proof.
  unfold stop_app, lookup_app. run_M.
  destruct (launched_apps st !! app_name) as [r|]; [|done].
  unfold poll. run_M.
  destruct (children st !! process r ≫= returncode) eqn:E; [done|].
  unfold stopped_children, terminate, kill, send_signal, sleep. run_M.
  cbn [set_children set_clock children launched_apps bound clock].
  destruct ((grace <$> alter (deliver host SIGTERM) (process r) (children st))
            !! process r ≫= returncode); by run_M.
Qed.

(** ** Launching *)

(** Every call of [launch_app] returns, and is one of the five. *)
Lemma launch_app_outcome (host : Host) (app_name : string) (st : State) :
  exists d st', launch_app host app_name st = (Ok d, st') /\
    (launch_ok host app_name st d st' \/
     (launch_failure host app_name st d /\ st' = st)).
Proof.
  rewrite launch_app_unfold.
  destruct (resolve host app_name) as [[script exec]|] eqn:Er.
  2: { eexists _, _. split; [done|]. right. split; [by constructor|done]. }
  destruct (path_exists host script) eqn:Ex.
  2: { eexists _, _. split; [done|]. right. split; [by econstructor|done]. }
  pose proof (find_free_port_default host st) as [Hst Hout].
  destruct (find_free_port host 8000 st) as [[p|e] st1] eqn:Ef;
    simpl in Hst, Hout; subst st1.
  - destruct (popen _ _ _ _) as [e|b] eqn:Ep.
    + eexists _, _. split; [done|]. right. split; [by eapply SpawnError|done].
    + eexists _, _. split; [done|]. left.
      exact (Launched host app_name st script exec p b Er Ex Ef Ep).
  - destruct Hout as [-> Hnone].
    eexists _, _. split; [done|]. right. split; [by eapply NoFreePortsError|done].
Qed.

Lemma lookup_snoc_length {A : Type} (l : list A) (x : A) :
  (l ++ [x]) !! length l = Some x.
Proof. by apply list_lookup_middle. Qed.

(** C4: when [launch_app] reports success, the port is the one
    [find_free_port] allocates, the child is started with a copy of the
    environment in which [PORT] is the decimal string of that port, the
    registry holds a record for the name with status [running] and that
    port, the message of the result names the port, and [get_app_status]
    called next reports [running] with the same port. *)
Theorem launch_app_success (host : Host) (app_name : string) (st : State)
    (d : dict) (st' : State) :
  launch_app host app_name st = (Ok d, st') ->
  get "status" d = Some (VStr "success") ->
  exists p child,
    find_free_port host 8000 st = (Ok p, st)
    /\ children st' = children st ++ [child]
    /\ penv child = <["PORT" := str p]> (environ host)
    /\ returncode child = None
    /\ launched_apps st'
       = <[app_name := {| process := length (children st); port := p;
                          status := "running" |}]> (launched_apps st)
    /\ d = [("status", VStr "success");
            ("message", VStr (app_name +:+ " launched on port " +:+ str p))]
    /\ get_app_status app_name st'
       = (Ok [("status", VStr "running"); ("port", VInt p)], st').
Proof.
  intros E Hd.
  destruct (launch_app_outcome host app_name st) as (d0 & st0 & E0 & H).
  rewrite E in E0. injection E0 as <- <-.
  destruct H as [H|[H _]].
  - destruct H as [script exec p b Er Ex Ef Ep].
    exists p, (spawned_child host script exec p b).
    repeat split; try done.
    rewrite get_app_status_unfold. cbn [launched_apps children].
    rewrite lookup_insert_eq. cbn [process port].
    by rewrite lookup_snoc_length.
  - destruct H; discriminate Hd.
Qed.

Example str_port : str 8001 = "8001".
Proof. reflexivity. Qed.

Lemma launch_app_success_witness :
  exists p child,
    find_free_port linux_host 8000 initial = (Ok p, initial)
    /\ children alpha_launched = children initial ++ [child]
    /\ penv child = <["PORT" := str p]> (environ linux_host)
    /\ returncode child = None
    /\ launched_apps alpha_launched
       = <["Alpha" := {| process := length (children initial); port := p;
                         status := "running" |}]> (launched_apps initial)
    /\ launch_success "Alpha" 8001
       = [("status", VStr "success");
          ("message", VStr ("Alpha" +:+ " launched on port " +:+ str p))]
    /\ get_app_status "Alpha" alpha_launched
       = (Ok [("status", VStr "running"); ("port", VInt p)], alpha_launched).
Proof.
  apply (launch_app_success linux_host "Alpha" initial
           (launch_success "Alpha" 8001) alpha_launched); reflexivity.
Defined.

(** With no port of the range free, the scan from 8000 raises. *)
Lemma find_free_port_exhausted (host : Host) (st : State) :
  (forall q, 8000 <= q < 9000 -> can_bind host st q = false) ->
  find_free_port host 8000 st
  = (Raise (Exception "No free ports available between 8000 and 9000"), st).
Proof.
  intros Hnone. pose proof (find_free_port_default host st) as [Hst Hout].
  destruct (find_free_port host 8000 st) as [[p|e] st1]; cbn in Hst, Hout; subst st1.
  - destruct Hout as (Hr & Hb & _). rewrite Hnone in Hb by lia. done.
  - by destruct Hout as [-> _].
Qed.

(** C5: [launch_app] never raises: it returns a dictionary.  Each of
    the four failures is returned as its error result and leaves the
    state, so the registry, as it was: an unsupported platform, a missing
    script, a range without a free port, an exception of the spawn.  And
    there is nothing else: the call either goes through as a launch, or
    it is one of these failures, with status ["error"], not ["success"],
    and a message, and the record of the name, if any, is the one from
    before the call. *)
Theorem launch_app_never_raises (host : Host) (app_name : string) (st : State) :
  exists d st',
    launch_app host app_name st = (Ok d, st')
    /\ (launch_ok host app_name st d st'
        \/ (launch_failure host app_name st d
            /\ get "status" d = Some (VStr "error")
            /\ (exists msg, get "message" d = Some (VStr msg))
            /\ st' = st
            /\ launched_apps st' !! app_name = launched_apps st !! app_name))
    /\ (resolve host app_name = None ->
        d = unsupported_platform_error host /\ st' = st)
    /\ (forall script exec,
          resolve host app_name = Some (script, exec) ->
          path_exists host script = false ->
          d = script_not_found_error app_name script /\ st' = st)
    /\ (forall script exec,
          resolve host app_name = Some (script, exec) ->
          path_exists host script = true ->
          (forall q, 8000 <= q < 9000 -> can_bind host st q = false) ->
          d = launch_failed_error app_name
                (Exception "No free ports available between 8000 and 9000")
          /\ st' = st)
    /\ (forall script exec p e,
          resolve host app_name = Some (script, exec) ->
          path_exists host script = true ->
          find_free_port host 8000 st = (Ok p, st) ->
          popen host (exec ++ [script]) (<["PORT" := str p]> (environ host))
            (if String.eqb (system host) "Windows" then CREATE_NO_WINDOW else 0)
          = SpawnRaises e ->
          d = launch_failed_error app_name e /\ st' = st).
Proof.
  destruct (launch_app_outcome host app_name st) as (d & st' & E & H).
  exists d, st'. split; [done|]. split.
  { destruct H as [H|[H ->]]; [by left|].
    right. split; [done|]. destruct H; by eauto. }
  rewrite launch_app_unfold in E. clear H.
  split; [|split; [|split]].
  - intros Er. rewrite Er in E. by injection E as <- <-.
  - intros script exec Er Ex. rewrite Er, Ex in E. by injection E as <- <-.
  - intros script exec Er Ex Hnone.
    rewrite Er, Ex, (find_free_port_exhausted host st Hnone) in E.
    by injection E as <- <-.
  - intros script exec p e Er Ex Ef Ep. rewrite Er, Ex, Ef, Ep in E.
    by injection E as <- <-.
Qed.

Lemma launch_app_never_raises_witness :
  launch_app freebsd_host "Alpha" alpha_launched
  = (Ok [("status", VStr "error");
         ("message", VStr "Unsupported operating system: FreeBSD")], alpha_launched)
  /\ launch_app linux_host "Beta" alpha_launched
     = (Ok [("status", VStr "error");
            ("message",
             VStr "Startup script not found for Beta at apps/Beta/run.sh")],
        alpha_launched)
  /\ launch_app crowded_host "Gamma" alpha_launched
     = (Ok [("status", VStr "error");
            ("message",
             VStr "Failed to launch Gamma: No free ports available between 8000 and 9000")],
        alpha_launched)
  /\ launch_app no_shell_host "Gamma" alpha_launched
     = (Ok [("status", VStr "error");
            ("message",
             VStr "Failed to launch Gamma: [Errno 2] No such file or directory: 'sh'")],
        alpha_launched).
Proof.
  split; [|split; [|split]].
  - destruct (launch_app_never_raises freebsd_host "Alpha" alpha_launched)
      as (d & st' & E & _ & H & _).
    destruct (H eq_refl) as [-> ->]. exact E.
  - destruct (launch_app_never_raises linux_host "Beta" alpha_launched)
      as (d & st' & E & _ & _ & H & _).
    destruct (H "apps/Beta/run.sh" ["sh"] eq_refl eq_refl) as [-> ->]. exact E.
  - destruct (launch_app_never_raises crowded_host "Gamma" alpha_launched)
      as (d & st' & E & _ & _ & _ & H & _).
    destruct (H "apps/Gamma/run.sh" ["sh"] eq_refl eq_refl ltac:(reflexivity))
      as [-> ->]. exact E.
  - destruct (launch_app_never_raises no_shell_host "Gamma" alpha_launched)
      as (d & st' & E & _ & _ & _ & _ & H).
    destruct (H "apps/Gamma/run.sh" ["sh"] 8001
                (OSError "[Errno 2] No such file or directory: 'sh'")
                eq_refl eq_refl eq_refl eq_refl) as [-> ->]. exact E.
Defined.

(** C8, as amended: when the script the platform resolves does not exist,
    [launch_app] returns the script-not-found error and leaves the state
    as it was, so no record is created; [get_app_status] called next
    returns [not_launched] when the name had no record before the call. *)
Theorem launch_app_script_not_found (host : Host) (app_name : string) (st : State)
    (script : string) (exec : list string) :
  resolve host app_name = Some (script, exec) ->
  path_exists host script = false ->
  launch_app host app_name st = (Ok (script_not_found_error app_name script), st)
  /\ (launched_apps st !! app_name = None ->
      get_app_status app_name st = (Ok [("status", VStr "not_launched")], st)).
Proof.
  intros Er Ex. split.
  - by rewrite launch_app_unfold, Er, Ex.
  - intros En. by rewrite get_app_status_unfold, En.
Qed.

Lemma launch_app_script_not_found_witness :
  launch_app linux_host "Beta" initial
  = (Ok [("status", VStr "error");
         ("message", VStr "Startup script not found for Beta at apps/Beta/run.sh")],
     initial)
  /\ (launched_apps initial !! "Beta" = None ->
      get_app_status "Beta" initial = (Ok [("status", VStr "not_launched")], initial)).
Proof.
  exact (launch_app_script_not_found linux_host "Beta" initial
           "apps/Beta/run.sh" ["sh"] eq_refl eq_refl).
Defined.

(** C8, as stated, fails when the name was launched before and its script
    has been removed since: the launch is refused with the script-not-found
    error, and [get_app_status] still reports the earlier record. *)
Lemma launch_app_script_not_found_after_launch :
  resolve linux_host_no_scripts "Alpha" = Some ("apps/Alpha/run.sh", ["sh"])
  /\ path_exists linux_host_no_scripts "apps/Alpha/run.sh" = false
  /\ launch_app linux_host_no_scripts "Alpha" alpha_launched
     = (Ok (script_not_found_error "Alpha" "apps/Alpha/run.sh"), alpha_launched)
  /\ get_app_status "Alpha" alpha_launched
     = (Ok [("status", VStr "running"); ("port", VInt 8001)], alpha_launched)
  /\ get_app_status "Alpha" alpha_launched
     <> (Ok [("status", VStr "not_launched")], alpha_launched).
Proof. repeat split; try reflexivity. discriminate. Qed.

(** ** Platforms *)

Lemma launch_app_runs_resolved (host : Host) (app_name : string) (st : State)
    (script : string) (exec : list string) :
  resolve host app_name = Some (script, exec) ->
  runs_script host app_name st script exec
    (if String.eqb (system host) "Windows" then CREATE_NO_WINDOW else 0).
Proof.
  intros Er. split; [|split].
  - intros Ex. by rewrite launch_app_unfold, Er, Ex.
  - intros p Ex Ef. rewrite launch_app_unfold, Er, Ex, Ef.
    by destruct (popen _ _ _ _).
  - intros d st' E Hd.
    destruct (launch_app_outcome host app_name st) as (d0 & st0 & E0 & H).
    rewrite E in E0. injection E0 as <- <-.
    destruct H as [H|[H _]]; [|destruct H; discriminate Hd].
    destruct H as [script' exec' p b Er' Ex Ef Ep].
    rewrite Er in Er'. injection Er' as <- <-.
    split; [done|]. by eexists.
Qed.



Example windows_launch :
  children (launch_app windows_host "Alpha" initial).2
  = [spawned_child windows_host "apps\Alpha\run.bat" ["cmd"; "/C"] 8000 (Some 1)].
Proof. reflexivity. Qed.

(** ** The process table *)

Lemma deliver_keeps (host : Host) (sig : Z) : keeps_terminated (deliver host sig).
Proof. intros p [c Hc]. unfold deliver. by rewrite Hc. Qed.

Lemma grace_keeps : keeps_terminated grace.
Proof. intros p [c Hc]. unfold grace. by rewrite Hc. Qed.

Lemma exits_keeps (c : Z) : keeps_terminated (exits c).
Proof. intros p [c' Hc]. unfold exits. by rewrite Hc. Qed.

Lemma grows_refl (cs : list Proc) : grows cs cs.
Proof. intros h p Hp. eauto. Qed.

Lemma grows_trans (cs1 cs2 cs3 : list Proc) :
  grows cs1 cs2 -> grows cs2 cs3 -> grows cs1 cs3.
Proof.
  intros H12 H23 h p Hp.
  destruct (H12 h p Hp) as (p2 & Hp2 & E2).
  destruct (H23 h p2 Hp2) as (p3 & Hp3 & E3).
  exists p3. split; [done|]. intros Hd.
  rewrite <- (E2 Hd). apply E3. by rewrite (E2 Hd).
Qed.

Lemma grows_alter (f : Proc -> Proc) (i : nat) (cs : list Proc) :
  keeps_terminated f -> grows cs (alter f i cs).
Proof.
  intros Hf h p Hp. destruct (decide (i = h)) as [->|Hne].
  - exists (f p). rewrite list_lookup_alter_eq, Hp. split; [done|]. apply Hf.
  - exists p. by rewrite list_lookup_alter_ne.
Qed.

Lemma grows_fmap (f : Proc -> Proc) (cs : list Proc) :
  keeps_terminated f -> grows cs (f <$> cs).
Proof.
  intros Hf h p Hp. exists (f p). rewrite list_lookup_fmap, Hp.
  split; [done|]. apply Hf.
Qed.

Lemma grows_snoc (cs : list Proc) (x : Proc) : grows cs (cs ++ [x]).
Proof. intros h p Hp. exists p. split; [by apply lookup_app_l_Some | by intros]. Qed.

Lemma grows_stopped_children (host : Host) (h : nat) (cs : list Proc) :
  grows cs (stopped_children host h cs).
Proof.
  unfold stopped_children.
  assert (grows cs (grace <$> alter (deliver host SIGTERM) h cs)) as H1.
  { eapply grows_trans; [apply grows_alter, deliver_keeps|].
    apply grows_fmap, grace_keeps. }
  destruct (_ !! h ≫= returncode); [done|].
  eapply grows_trans; [exact H1|]. apply grows_alter, deliver_keeps.
Qed.

Lemma grace_after_sigterm (host : Host) (p : Proc) :
  returncode p = None ->
  grace (deliver host SIGTERM p)
  = {| argv := argv p; penv := penv p; creationflags := creationflags p;
       on_sigterm := on_sigterm p; signals := signals p ++ [SIGTERM];
       returncode := on_sigterm p |}.
Proof.
  intros Hr. unfold grace, deliver. rewrite Hr. cbn.
  destruct (on_sigterm p) as [c|]; [|done].
  rewrite bool_decide_eq_true_2; [done|].
  apply elem_of_app. right. apply list_elem_of_here.
Qed.

Lemma stopped_children_lookup (host : Host) (h : nat) (cs : list Proc) (p : Proc) :
  cs !! h = Some p -> returncode p = None ->
  stopped_children host h cs !! h = Some (stopped_child host p).
Proof.
  intros Hp Hr. unfold stopped_children.
  assert ((grace <$> alter (deliver host SIGTERM) h cs) !! h
          = Some (grace (deliver host SIGTERM p))) as E
    by (by rewrite list_lookup_fmap, list_lookup_alter_eq, Hp).
  rewrite E, (grace_after_sigterm host p Hr). cbn [mbind option_bind returncode].
  unfold stopped_child.
  destruct (on_sigterm p) as [c|] eqn:Es.
  - by rewrite E, (grace_after_sigterm host p Hr), Es.
  - rewrite list_lookup_alter_eq, E, (grace_after_sigterm host p Hr), Es.
    cbn. unfold deliver. cbn. by rewrite <- app_assoc.
Qed.

Lemma stopped_child_terminated (host : Host) (p : Proc) :
  is_Some (returncode (stopped_child host p)).
Proof. unfold stopped_child. cbn. by destruct (on_sigterm p). Qed.

(** ** Histories and the invariant *)

Lemma run_snoc (evs : list event) (e : event) (st : State) :
  run (evs ++ [e]) st = step (run evs st) e.
Proof. unfold run. by rewrite foldl_snoc. Qed.

Lemma run_app (evs evs' : list event) (st : State) :
  run (evs ++ evs') st = run evs' (run evs st).
Proof. unfold run. by rewrite foldl_app. Qed.

Lemma polled_Some (st : State) (h : nat) (c : Z) :
  polled st h = Some c <->
  exists p, children st !! h = Some p /\ returncode p = Some c.
Proof.
  unfold polled. destruct (children st !! h) as [p|]; cbn.
  - split; [by eauto|]. by intros (p' & [= <-] & ?).
  - split; [done|]. by intros (p' & ? & ?).
Qed.

Lemma record_ok_grows (st st' : State) (r : LaunchRecord) :
  grows (children st) (children st') -> record_ok st r -> record_ok st' r.
Proof.
  intros Hg (p & Hp & Hs). destruct (Hg _ _ Hp) as (p' & Hp' & E).
  exists p'. split; [done|]. destruct Hs as [?|[? Hd]]; [by left|].
  right. split; [done|]. by rewrite (E Hd).
Qed.

Lemma step_grows (st : State) (e : event) :
  grows (children st) (children (step st e)).
Proof.
  destruct e as [host name|name|host name|h c]; cbn [step].
  - destruct (launch_app_outcome host name st) as (d & st' & -> & H).
    destruct H as [H|[_ ->]]; [|apply grows_refl].
    destruct H. apply grows_snoc.
  - rewrite get_app_status_unfold.
    destruct (launched_apps st !! name) as [r|]; [|apply grows_refl].
    destruct (_ ≫= returncode); apply grows_refl.
  - rewrite stop_app_unfold.
    destruct (launched_apps st !! name) as [r|]; [|apply grows_refl].
    destruct (_ ≫= returncode); [apply grows_refl|].
    apply grows_stopped_children.
  - apply grows_alter, exits_keeps.
Qed.

(** What one event does to the record of [name], short of a relaunch:
    handle and port stay, and the status stays or becomes [exited] on a
    status query that finds the child terminated, or [stopped] on a stop
    that finds it alive. *)
Lemma step_record (st : State) (e : event) (name : string) (r : LaunchRecord) :
  launched_apps st !! name = Some r ->
  keeps_record name e ->
  exists r', launched_apps (step st e) !! name = Some r'
    /\ process r' = process r /\ port r' = port r
    /\ (r' = r
        \/ (e = GetStatus name /\ is_Some (polled st (process r))
            /\ status r' = "exited")
        \/ ((exists host, e = Stop host name) /\ polled st (process r) = None
            /\ status r' = "stopped")).
Proof.
  intros Hr Hk. destruct e as [host n|n|host n|h c]; cbn [step].
  - cbn in Hk.
    destruct (launch_app_outcome host n st) as (d & st' & -> & H).
    destruct H as [H|[_ ->]]; [|by eauto 10].
    destruct H. cbn. rewrite lookup_insert_ne by done. by eauto 10.
  - rewrite get_app_status_unfold.
    destruct (decide (n = name)) as [->|Hne].
    + rewrite Hr. fold (polled st (process r)).
      destruct (polled st (process r)) as [c|] eqn:Ep; [|by eauto 10].
      cbn. rewrite lookup_alter_eq, Hr. cbn.
      exists (set_status "exited" r). by eauto 10.
    + destruct (launched_apps st !! n) as [r0|]; [|by eauto 10].
      destruct (_ ≫= returncode); [|by eauto 10].
      cbn. rewrite lookup_alter_ne by done. by eauto 10.
  - rewrite stop_app_unfold.
    destruct (decide (n = name)) as [->|Hne].
    + rewrite Hr. fold (polled st (process r)).
      destruct (polled st (process r)) as [c|] eqn:Ep; [by eauto 10|].
      cbn. rewrite lookup_alter_eq, Hr. cbn.
      exists (set_status "stopped" r). by eauto 10.
    + destruct (launched_apps st !! n) as [r0|]; [|by eauto 10].
      destruct (_ ≫= returncode); [by eauto 10|].
      cbn. rewrite lookup_alter_ne by done. by eauto 10.
  - cbn. by eauto 10.
Qed.

Lemma step_consistent (st : State) (e : event) :
  consistent st -> consistent (step st e).
Proof.
  intros Hc. pose proof (step_grows st e) as Hg.
  destruct e as [host n|n|host n|h c]; cbn [step] in *.
  - destruct (launch_app_outcome host n st) as (d & st' & E & H).
    rewrite E in *. cbn [snd] in *.
    destruct H as [H|[_ ->]]; [|done].
    destruct H as [script exec p b _ _ _ _].
    intros name r'. cbn [launched_apps].
    destruct (decide (n = name)) as [->|Hne].
    + rewrite lookup_insert_eq. intros [= <-].
      eexists. cbn. split; [apply lookup_snoc_length|by left].
    + rewrite lookup_insert_ne by done. intros Hr.
      eapply record_ok_grows; [exact Hg|]. by eapply Hc.
  - rewrite get_app_status_unfold in *.
    destruct (launched_apps st !! n) as [r|] eqn:Er; [|done].
    fold (polled st (process r)) in *.
    destruct (polled st (process r)) as [c|] eqn:Ep; [|done].
    intros name r'. cbn.
    destruct (decide (n = name)) as [->|Hne].
    + rewrite lookup_alter_eq, Er. intros [= <-].
      apply polled_Some in Ep as (p & Hp & Hcode).
      exists p. cbn. split; [done|]. right. split; [by left|by eexists].
    + rewrite lookup_alter_ne by done. apply Hc.
  - rewrite stop_app_unfold in *.
    destruct (launched_apps st !! n) as [r|] eqn:Er; [|done].
    fold (polled st (process r)) in *.
    destruct (polled st (process r)) as [c|] eqn:Ep; [done|].
    intros name r'. cbn in *.
    destruct (decide (n = name)) as [->|Hne].
    + rewrite lookup_alter_eq, Er. intros [= <-].
      destruct (Hc _ _ Er) as (p & Hp & _).
      assert (returncode p = None) as Hr.
      { unfold polled in Ep. by rewrite Hp in Ep. }
      exists (stopped_child host p). cbn.
      split; [by apply stopped_children_lookup|].
      right. split; [by right|]. apply stopped_child_terminated.
    + rewrite lookup_alter_ne by done. intros Hr.
      eapply record_ok_grows; [exact Hg|]. by eapply Hc.
  - intros name r' Hr. eapply record_ok_grows; [exact Hg|]. by eapply Hc.
Qed.

Lemma run_consistent (evs : list event) (st : State) :
  consistent st -> consistent (run evs st).
Proof.
  revert st. induction evs as [|e evs IH]; intros st Hc; [done|].
  cbn. apply IH. by apply step_consistent.
Qed.

Lemma initial_consistent : consistent initial.
Proof. intros name r Hr. cbn in Hr. by rewrite lookup_empty in Hr. Qed.

Lemma reachable_consistent (evs : list event) : consistent (run evs initial).
Proof. apply run_consistent, initial_consistent. Qed.

(** ** Status *)

(** C2: [get_app_status] returns [not_launched] for a name without a
    record.  For a name with a record it polls the record's child: when
    the poll shows it alive the result is [running] with the record's
    port and nothing changes; when the poll shows it terminated with
    return code [c] the result is [exited] with the record's port and the
    exit code [c], an integer and not [None], and the status of the
    record is set to [exited], all else being as before. *)
Theorem get_app_status_spec (app_name : string) (st : State) :
  (launched_apps st !! app_name = None ->
   get_app_status app_name st = (Ok [("status", VStr "not_launched")], st))
  /\ (forall r, launched_apps st !! app_name = Some r ->
        (poll (process r) st = (Ok None, st) ->
         get_app_status app_name st
         = (Ok [("status", VStr "running"); ("port", VInt (port r))], st))
        /\ (forall c, poll (process r) st = (Ok (Some c), st) ->
              exists st',
                get_app_status app_name st
                = (Ok [("status", VStr "exited"); ("port", VInt (port r));
                       ("exit_code", VInt c)], st')
                /\ launched_apps st' !! app_name = Some (set_status "exited" r)
                /\ (forall other, other <> app_name ->
                      launched_apps st' !! other = launched_apps st !! other)
                /\ children st' = children st)).
Proof.
  rewrite get_app_status_unfold. split.
  - by intros ->.
  - intros r Hr. rewrite Hr. unfold poll. split.
    + by intros [= ->].
    + intros c [= ->]. eexists. split; [done|]. cbn.
      split; [|split; [|done]].
      * by rewrite lookup_alter_eq, Hr.
      * intros other Hne. by rewrite lookup_alter_ne.
Qed.

Lemma get_app_status_spec_witness :
  get_app_status "Beta" alpha_launched
  = (Ok [("status", VStr "not_launched")], alpha_launched)
  /\ get_app_status "Alpha" alpha_launched
     = (Ok [("status", VStr "running"); ("port", VInt 8001)], alpha_launched)
  /\ exists st',
       get_app_status "Alpha" alpha_exited
       = (Ok [("status", VStr "exited"); ("port", VInt 8001);
              ("exit_code", VInt 0)], st')
       /\ launched_apps st' !! "Alpha"
          = Some {| process := 0; port := 8001; status := "exited" |}
       /\ (forall other, other <> "Alpha" ->
             launched_apps st' !! other = launched_apps alpha_exited !! other)
       /\ children st' = children alpha_exited.
Proof.
  split; [|split].
  - exact (proj1 (get_app_status_spec "Beta" alpha_launched) eq_refl).
  - exact (proj1 (proj2 (get_app_status_spec "Alpha" alpha_launched)
                    {| process := 0; port := 8001; status := "running" |} eq_refl)
             eq_refl).
  - exact (proj2 (proj2 (get_app_status_spec "Alpha" alpha_exited)
                    {| process := 0; port := 8001; status := "running" |} eq_refl)
             0 eq_refl).
Defined.

(** ** Stopping *)

Lemma terminated_record_step (st : State) (e : event) (name : string) (pt c : Z) :
  terminated_record st name pt c -> keeps_record name e ->
  terminated_record (step st e) name pt c.
Proof.
  intros (r & p & Hr & Hpt & Hp & Hc) Hk.
  destruct (step_record st e name r Hr Hk) as (r' & Hr' & Eh & Ept & _).
  destruct (step_grows st e _ _ Hp) as (p' & Hp' & E).
  exists r', p'. rewrite Eh, Ept.
  rewrite (E ltac:(by eexists)) in *. done.
Qed.

Lemma terminated_record_run (evs : list event) (st : State) (name : string) (pt c : Z) :
  terminated_record st name pt c -> Forall (keeps_record name) evs ->
  terminated_record (run evs st) name pt c.
Proof.
  revert st. induction evs as [|e evs IH]; intros st Ht Hall; [done|].
  apply Forall_cons in Hall as [He Hall]. cbn.
  apply IH; [|done]. by apply terminated_record_step.
Qed.

Lemma terminated_record_status (st : State) (name : string) (pt c : Z) :
  terminated_record st name pt c ->
  (get_app_status name st).1
  = Ok [("status", VStr "exited"); ("port", VInt pt); ("exit_code", VInt c)].
Proof.
  intros (r & p & Hr & Hpt & Hp & Hc).
  rewrite get_app_status_unfold, Hr, Hp. cbn. by rewrite Hc, Hpt.
Qed.




Example stop_gamma_signals :
  (fun p => (signals p, returncode p))
    <$> children (stop_app linux_host "Gamma" gamma_launched).2
  = [([SIGTERM; SIGKILL], Some (-9))].
Proof. reflexivity. Qed.

Example stop_alpha_signals :
  (fun p => (signals p, returncode p))
    <$> children (stop_app linux_host "Alpha" alpha_launched).2
  = [([SIGTERM], Some (-15))].
Proof. reflexivity. Qed.


(** ** Status transitions *)

(** What one event does to the status of [name] in a consistent state,
    short of a relaunch. *)
Lemma step_status (st : State) (e : event) (name : string) :
  consistent st -> keeps_record name e ->
  let s := status_of name st in
  let s' := status_of name (step st e) in
  is_Some s ->
  s' = s
  \/ (s = Some "running" /\ s' = Some "exited")
  \/ (s = Some "running" /\ s' = Some "stopped")
  \/ (s = Some "stopped" /\ s' = Some "exited").
Proof.
  intros Hc Hk s s' [x Hx]. subst s s'. unfold status_of in *.
  destruct (launched_apps st !! name) as [r|] eqn:Er; [|done].
  cbn in Hx. injection Hx as <-.
  destruct (step_record st e name r Er Hk) as (r' & -> & _ & _ & H). cbn.
  destruct (Hc _ _ Er) as (p & Hp & Hs).
  destruct H as [->|[(_ & Hd & ->)|(_ & Ha & ->)]].
  - by left.
  - destruct Hs as [->|[[->| ->] _]]; tauto.
  - destruct Hs as [->|[_ [c Hcode]]]; [tauto|].
    unfold polled in Ha. rewrite Hp in Ha. cbn in Ha. congruence.
Qed.

(** A name without a record gets none from a query or a child's exit. *)
Lemma step_no_record (st : State) (e : event) (name : string) :
  keeps_record name e ->
  launched_apps st !! name = None ->
  launched_apps (step st e) !! name = None.
Proof.
  intros Hk Hn. destruct e as [host n|n|host n|h c]; cbn [step].
  - cbn in Hk.
    destruct (launch_app_outcome host n st) as (d & st' & -> & H).
    destruct H as [H|[_ ->]]; [|done].
    destruct H. cbn. by rewrite lookup_insert_ne.
  - rewrite get_app_status_unfold.
    destruct (launched_apps st !! n) as [r|] eqn:Er; [|done].
    destruct (_ ≫= returncode); [|done].
    cbn. destruct (decide (n = name)) as [->|Hne]; [congruence|].
    by rewrite lookup_alter_ne.
  - rewrite stop_app_unfold.
    destruct (launched_apps st !! n) as [r|] eqn:Er; [|done].
    destruct (_ ≫= returncode); [done|].
    cbn. destruct (decide (n = name)) as [->|Hne]; [congruence|].
    by rewrite lookup_alter_ne.
  - done.
Qed.

Lemma exited_stays (evs : list event) (st : State) (name : string) :
  consistent st -> Forall (keeps_record name) evs ->
  status_of name st = Some "exited" ->
  status_of name (run evs st) = Some "exited".
Proof.
  revert st. induction evs as [|e evs IH]; intros st Hc Hall Hs; [done|].
  apply Forall_cons in Hall as [He Hall]. cbn.
  apply IH; [by apply step_consistent|done|].
  destruct (step_status st e name Hc He) as [H|[[H _]|[[H _]|[H _]]]];
    rewrite Hs in *; try done; congruence.
Qed.

Lemma is_query_keeps_record (name : string) (e : event) :
  is_query e -> keeps_record name e.
Proof. by destruct e. Qed.

(** C6, as amended: in every state the launcher can reach, a call of
    [get_app_status] or [stop_app] leaves the status of a record as it is
    or takes it from [running] to [exited], from [running] to [stopped], or
    from [stopped] to [exited] (a status query after a stop finds the
    child terminated).  [exited] is terminal: once a record is [exited],
    no sequence of calls and child exits changes its status, short of a
    relaunch of the name.  [stopped] is not. *)
Theorem status_transitions (evs : list event) (name : string) :
  let st := run evs initial in
  (forall e, is_query e ->
     let s := status_of name st in
     let s' := status_of name (step st e) in
     s' = s
     \/ (s = Some "running" /\ s' = Some "exited")
     \/ (s = Some "running" /\ s' = Some "stopped")
     \/ (s = Some "stopped" /\ s' = Some "exited"))
  /\ (status_of name st = Some "exited" ->
      forall evs', Forall (keeps_record name) evs' ->
        status_of name (run evs' st) = Some "exited").
Proof.
  intros st. pose proof (reachable_consistent evs) as Hc. fold st in Hc. split.
  - intros e Hq s s'. subst s s'.
    apply (is_query_keeps_record name) in Hq.
    destruct (status_of name st) as [x|] eqn:Ex.
    + rewrite <- Ex. apply step_status; [done..|]. rewrite Ex. by eexists.
    + left. unfold status_of in *.
      destruct (launched_apps st !! name) eqn:El; [done|].
      by rewrite step_no_record.
  - intros Hs evs' Hall. by apply exited_stays.
Qed.

Lemma status_transitions_witness :
  (status_of "Alpha" (step alpha_launched (Stop linux_host "Alpha"))
   = status_of "Alpha" alpha_launched
   \/ (status_of "Alpha" alpha_launched = Some "running"
       /\ status_of "Alpha" (step alpha_launched (Stop linux_host "Alpha"))
          = Some "exited")
   \/ (status_of "Alpha" alpha_launched = Some "running"
       /\ status_of "Alpha" (step alpha_launched (Stop linux_host "Alpha"))
          = Some "stopped")
   \/ (status_of "Alpha" alpha_launched = Some "stopped"
       /\ status_of "Alpha" (step alpha_launched (Stop linux_host "Alpha"))
          = Some "exited"))
  /\ status_of "Alpha"
       (run [Stop linux_host "Alpha"; GetStatus "Alpha"; Launch linux_host "Gamma"]
          (run [Launch linux_host "Alpha"; ChildExit 0 0; GetStatus "Alpha"] initial))
     = Some "exited".
Proof.
  split.
  - exact (proj1 (status_transitions [Launch linux_host "Alpha"] "Alpha")
             (Stop linux_host "Alpha") I).
  - apply (proj2 (status_transitions
                    [Launch linux_host "Alpha"; ChildExit 0 0; GetStatus "Alpha"]
                    "Alpha")); [reflexivity|].
    repeat constructor. discriminate.
Defined.

(** C6, as stated, fails: [stopped] is not terminal.  After a launch and
    a stop the record is [stopped]; one call of [get_app_status] finds the
    child terminated and sets the record to [exited]. *)
Lemma stopped_then_exited :
  status_of "Alpha" alpha_stopped = Some "stopped"
  /\ is_query (GetStatus "Alpha")
  /\ status_of "Alpha" (run [GetStatus "Alpha"] alpha_stopped) = Some "exited"
  /\ status_of "Alpha" (run [GetStatus "Alpha"] alpha_stopped)
     <> status_of "Alpha" alpha_stopped.
Proof. repeat split; try reflexivity. discriminate. Qed.

(** ** Relaunching *)

(** C7: in every state the launcher can reach the registry has no name
    twice.  A launch that succeeds for a name that has a record puts a
    new record in its place, whatever the status of the old one: the
    handle is that of the child just started (not the old handle), the
    port is the one [find_free_port] allocates now, the status is
    [running]; the names of the registry are as before.  The child of the
    old record is not looked at: it stays in the process table as it was,
    alive if it was alive. *)
Theorem relaunch_overwrites (evs : list event) :
  let st := run evs initial in
  NoDup (map_to_list (launched_apps st)).*1
  /\ forall host name old d st',
       launched_apps st !! name = Some old ->
       launch_app host name st = (Ok d, st') ->
       get "status" d = Some (VStr "success") ->
       exists p,
         find_free_port host 8000 st = (Ok p, st)
         /\ launched_apps st'
            = <[name := {| process := length (children st); port := p;
                           status := "running" |}]> (launched_apps st)
         /\ (process old < length (children st))%nat
         /\ dom (launched_apps st') = dom (launched_apps st)
         /\ children st' !! process old = children st !! process old.
Proof.
  intros st. split; [apply NoDup_fst_map_to_list|].
  intros host name old d st' Hold E Hd.
  pose proof (reachable_consistent evs) as Hc. fold st in Hc.
  destruct (Hc _ _ Hold) as (q & Hq & _).
  destruct (launch_app_outcome host name st) as (d0 & st0 & E0 & H).
  rewrite E in E0. injection E0 as <- <-.
  destruct H as [H|[H _]]; [|destruct H; discriminate Hd].
  destruct H as [script exec p b _ _ Ef _].
  exists p. cbn [launched_apps children].
  split; [done|]. split; [done|].
  split; [by eapply lookup_lt_Some|].
  split.
  - rewrite dom_insert_L. apply elem_of_dom_2 in Hold.
    apply set_eq. intros x. rewrite elem_of_union, elem_of_singleton.
    split; [by intros [->|?]|by right].
  - rewrite Hq. by apply lookup_app_l_Some.
Qed.

Lemma relaunch_overwrites_witness :
  exists p,
    find_free_port linux_host 8000 alpha_launched = (Ok p, alpha_launched)
    /\ launched_apps (launch_app linux_host "Alpha" alpha_launched).2
       = <["Alpha" := {| process := length (children alpha_launched); port := p;
                         status := "running" |}]> (launched_apps alpha_launched)
    /\ (process {| process := 0; port := 8001; status := "running" |}
        < length (children alpha_launched))%nat
    /\ dom (launched_apps (launch_app linux_host "Alpha" alpha_launched).2)
       = dom (launched_apps alpha_launched)
    /\ children (launch_app linux_host "Alpha" alpha_launched).2
         !! process {| process := 0; port := 8001; status := "running" |}
       = children alpha_launched
           !! process {| process := 0; port := 8001; status := "running" |}.
Proof.
  apply (proj2 (relaunch_overwrites [Launch linux_host "Alpha"])
           linux_host "Alpha" {| process := 0; port := 8001; status := "running" |}
           (launch_success "Alpha" 8001)); reflexivity.
Defined.

Example relaunch_alpha :
  launched_apps (launch_app linux_host "Alpha" alpha_launched).2 !! "Alpha"
  = Some {| process := 1; port := 8001; status := "running" |}
  /\ returncode <$> children (launch_app linux_host "Alpha" alpha_launched).2
     = [None; None].
Proof. split; reflexivity. Qed.

(** * Further properties of the registry *)

(** ** Where a record comes from *)

(** A record found after an event was there before, with the same
    handle and port, or was put there by a launch of its name that went
    through. *)
Lemma step_record_inv (st : State) (e : event) (name : string) (r' : LaunchRecord) :
  launched_apps (step st e) !! name = Some r' ->
  (exists r, launched_apps st !! name = Some r
             /\ process r' = process r /\ port r' = port r)
  \/ (exists host p,
        e = Launch host name
        /\ find_free_port host 8000 st = (Ok p, st)
        /\ children (step st e) !! length (children st) <> None
        /\ r' = {| process := length (children st); port := p;
                   status := "running" |}).
Proof.
  intros Hr'.
  assert (keeps_record name e \/ exists host, e = Launch host name) as [Hk|[host ->]].
  { destruct e as [host n| | |]; cbn; try by left.
    destruct (decide (n = name)) as [->|]; [right; by eexists|by left]. }
  - destruct (launched_apps st !! name) as [r|] eqn:Er.
    + destruct (step_record st e name r Er Hk) as (r1 & Hr1 & ? & ? & _).
      rewrite Hr' in Hr1. injection Hr1 as <-. left. by eauto.
    + by rewrite (step_no_record st e name Hk Er) in Hr'.
  - cbn [step] in *.
    destruct (launch_app_outcome host name st) as (d & st' & E & H).
    rewrite E in *. cbn [snd] in *.
    destruct H as [H|[_ ->]]; [|left; by eauto].
    destruct H as [script exec p b _ _ Ef _]. cbn in Hr'.
    rewrite lookup_insert_eq in Hr'. injection Hr' as <-.
    right. exists host, p. cbn. by rewrite lookup_snoc_length.
Qed.

Lemma step_keeps_names (st : State) (e : event) (name : string) :
  is_Some (launched_apps st !! name) ->
  is_Some (launched_apps (step st e) !! name).
Proof.
  intros [r Hr].
  assert (keeps_record name e \/ exists host, e = Launch host name) as [Hk|[host ->]].
  { destruct e as [host n| | |]; cbn; try by left.
    destruct (decide (n = name)) as [->|]; [right; by eexists|by left]. }
  - destruct (step_record st e name r Hr Hk) as (r1 & Hr1 & _). by eexists.
  - cbn [step].
    destruct (launch_app_outcome host name st) as (d & st' & -> & H).
    destruct H as [H|[_ ->]]; [|by eexists].
    destruct H. cbn. rewrite lookup_insert_eq. by eexists.
Qed.

Lemma run_keeps_names (evs : list event) (st : State) (name : string) :
  is_Some (launched_apps st !! name) ->
  is_Some (launched_apps (run evs st) !! name).
Proof.
  revert st. induction evs as [|e evs IH]; intros st Hs; [done|].
  cbn. by apply IH, step_keeps_names.
Qed.

(** X1: the registry never loses a name.  Once a name has a record, it
    has one after every history of launches (failed or not), status
    queries, stops and child exits, and [get_app_status] answers
    [running] or [exited] for it, never [not_launched]. *)
Theorem records_never_deleted (evs : list event) (st : State) (name : string) :
  is_Some (launched_apps st !! name) ->
  is_Some (launched_apps (run evs st) !! name)
  /\ exists d, (get_app_status name (run evs st)).1 = Ok d
       /\ (get "status" d = Some (VStr "running")
           \/ get "status" d = Some (VStr "exited")).
Proof.
  intros Hs. pose proof (run_keeps_names evs st name Hs) as [r Hr].
  split; [by eexists|].
  rewrite get_app_status_unfold, Hr.
  destruct (_ ≫= returncode); eexists; (split; [done|]); [by right|by left].
Qed.

Lemma records_never_deleted_witness :
  is_Some (launched_apps
             (run [Stop linux_host "Alpha"; Launch linux_host_no_scripts "Alpha";
                   GetStatus "Alpha"] alpha_launched) !! "Alpha")
  /\ exists d,
       (get_app_status "Alpha"
          (run [Stop linux_host "Alpha"; Launch linux_host_no_scripts "Alpha";
                GetStatus "Alpha"] alpha_launched)).1 = Ok d
       /\ (get "status" d = Some (VStr "running")
           \/ get "status" d = Some (VStr "exited")).
Proof.
  apply (records_never_deleted
           [Stop linux_host "Alpha"; Launch linux_host_no_scripts "Alpha";
            GetStatus "Alpha"] alpha_launched "Alpha").
  by eexists.
Defined.

(** ** Ports *)

(** X2: every port the registry holds was handed out by the scan from
    8000, so it lies in 8000..8999, in every state the launcher can
    reach. *)
Theorem registry_ports_in_range (evs : list event) (name : string) (r : LaunchRecord) :
  launched_apps (run evs initial) !! name = Some r ->
  8000 <= port r < 9000.
Proof.
  revert name r. induction evs as [|e evs IH] using rev_ind; intros name r Hr.
  - cbn in Hr. by rewrite lookup_empty in Hr.
  - rewrite run_snoc in Hr.
    destruct (step_record_inv _ _ _ _ Hr) as [(r0 & Hr0 & _ & ->)|H].
    + by eapply IH.
    + destruct H as (host & p & _ & Ef & _ & ->). cbn.
      pose proof (find_free_port_default host (run evs initial)) as [_ Hout].
      rewrite Ef in Hout. cbn in Hout. lia.
Qed.

Lemma registry_ports_in_range_witness :
  8000 <= port {| process := 1; port := 8001; status := "running" |} < 9000.
Proof.
  apply (registry_ports_in_range both_launched "Gamma"). reflexivity.
Defined.

(** ** Handles *)

Lemma consistent_handle_lt (st : State) (name : string) (r : LaunchRecord) :
  consistent st -> launched_apps st !! name = Some r ->
  (process r < length (children st))%nat.
Proof.
  intros Hc Hr. destruct (Hc _ _ Hr) as (p & Hp & _). by eapply lookup_lt_Some.
Qed.

(** X3: in every state the launcher can reach, two different names never
    share a child: the handles of their records differ.  A launch takes
    the next free handle, and nothing else changes a handle. *)
Theorem handles_never_shared (evs : list event) : handles_distinct (run evs initial).
Proof.
  induction evs as [|e evs IH] using rev_ind.
  - intros n1 n2 r1 r2 _ H1. cbn in H1. by rewrite lookup_empty in H1.
  - rewrite run_snoc. pose proof (reachable_consistent evs) as Hc.
    intros n1 n2 r1 r2 Hne H1 H2.
    destruct (step_record_inv _ _ _ _ H1) as [(q1 & Hq1 & -> & _)|N1];
      destruct (step_record_inv _ _ _ _ H2) as [(q2 & Hq2 & -> & _)|N2].
    + by eapply IH.
    + destruct N2 as (? & ? & _ & _ & _ & ->). cbn.
      pose proof (consistent_handle_lt _ _ _ Hc Hq1). lia.
    + destruct N1 as (? & ? & _ & _ & _ & ->). cbn.
      pose proof (consistent_handle_lt _ _ _ Hc Hq2). lia.
    + destruct N1 as (? & ? & -> & _). destruct N2 as (? & ? & [= _ ->] & _).
      done.
Qed.

(** ** Signals *)

Lemma grace_signals (p : Proc) : signals (grace p) = signals p.
Proof.
  unfold grace. destruct (returncode p); [done|].
  destruct (on_sigterm p); [|done]. by case_bool_decide.
Qed.

Lemma stopped_children_other (host : Host) (h h' : nat) (cs : list Proc) (p : Proc) :
  h <> h' -> cs !! h' = Some p ->
  stopped_children host h cs !! h' = Some (grace p).
Proof.
  intros Hne Hp. unfold stopped_children.
  assert ((grace <$> alter (deliver host SIGTERM) h cs) !! h' = Some (grace p)) as E
    by (by rewrite list_lookup_fmap, list_lookup_alter_ne, Hp).
  destruct (_ !! h ≫= returncode); [done|]. by rewrite list_lookup_alter_ne.
Qed.

(** What one event does to the signal log of a child: nothing, unless the
    event is a stop of the record that holds the child and the child is
    alive. *)
Lemma step_signals (st : State) (e : event) (h : nat) (p : Proc) :
  children st !! h = Some p ->
  exists p', children (step st e) !! h = Some p'
    /\ (signals p' = signals p
        \/ exists host name r,
             e = Stop host name /\ launched_apps st !! name = Some r
             /\ process r = h /\ returncode p = None
             /\ p' = stopped_child host p).
Proof.
  intros Hp. destruct e as [host n|n|host n|h' c]; cbn [step].
  - destruct (launch_app_outcome host n st) as (d & st' & -> & H).
    destruct H as [H|[_ ->]]; [|by eauto].
    destruct H. cbn. exists p. split; [by apply lookup_app_l_Some|by left].
  - rewrite get_app_status_unfold.
    destruct (launched_apps st !! n) as [r|]; [|by eauto].
    destruct (_ ≫= returncode); by eauto.
  - rewrite stop_app_unfold.
    destruct (launched_apps st !! n) as [r|] eqn:Er; [|by eauto].
    destruct (children st !! process r ≫= returncode) eqn:Ep; [by eauto|].
    cbn [children]. destruct (decide (process r = h)) as [Eh|Hne].
    + subst h. rewrite Hp in Ep. cbn in Ep.
      exists (stopped_child host p).
      split; [by apply stopped_children_lookup|]. right. by eauto 12.
    + exists (grace p). split; [by apply stopped_children_other|].
      left. apply grace_signals.
  - cbn. destruct (decide (h' = h)) as [->|Hne].
    + exists (exits c p). rewrite list_lookup_alter_eq, Hp. split; [done|].
      left. unfold exits. by destruct (returncode p).
    + exists p. split; [by rewrite list_lookup_alter_ne|by left].
Qed.

(** X4: the launcher signals a child only from [stop_app], and only the
    child of the record that is being stopped, found alive: over any
    event, the signal log of every other child is as it was. *)
Theorem signals_only_from_stop (st : State) (e : event) (h : nat) (p : Proc) :
  children st !! h = Some p ->
  exists p', children (step st e) !! h = Some p'
    /\ (signals p' = signals p
        \/ exists host name r,
             e = Stop host name /\ launched_apps st !! name = Some r
             /\ process r = h /\ returncode p = None).
Proof.
  intros Hp. destruct (step_signals st e h p Hp) as (p' & Hp' & H).
  exists p'. split; [done|].
  destruct H as [H|(host & name & r & ? & ? & ? & ? & _)]; [by left|].
  right. by exists host, name, r.
Qed.

Lemma signals_only_from_stop_witness :
  exists p',
    children (step (run both_launched initial) (Stop linux_host "Gamma")) !! 0%nat
    = Some p'
    /\ (signals p' = signals (spawned_child linux_host "apps/Alpha/run.sh" ["sh"] 8001
                                (Some (-15)))
        \/ exists host name r,
             Stop linux_host "Gamma" = Stop host name
             /\ launched_apps (run both_launched initial) !! name = Some r
             /\ process r = 0%nat
             /\ returncode (spawned_child linux_host "apps/Alpha/run.sh" ["sh"] 8001
                              (Some (-15))) = None).
Proof.
  apply (signals_only_from_stop (run both_launched initial)
           (Stop linux_host "Gamma") 0). reflexivity.
Defined.

Example stop_gamma_spares_alpha :
  (fun p => (argv p, signals p))
    <$> children (step (run both_launched initial) (Stop linux_host "Gamma"))
  = [(["sh"; "apps/Alpha/run.sh"], []);
     (["sh"; "apps/Gamma/run.sh"], [SIGTERM; SIGKILL])].
Proof. reflexivity. Qed.

Lemma handles_never_shared_witness :
  process {| process := 0; port := 8001; status := "running" |}
  <> process {| process := 1; port := 8001; status := "running" |}.
Proof.
  apply (handles_never_shared both_launched "Alpha" "Gamma");
    [discriminate|reflexivity|reflexivity].
Defined.



(** ** Status queries *)

Lemma set_status_twice (s : string) (m : gmap string LaunchRecord) (name : string) :
  alter (set_status s) name (alter (set_status s) name m)
  = alter (set_status s) name m.
Proof.
  apply map_eq. intros k. destruct (decide (name = k)) as [->|Hne].
  - rewrite !lookup_alter_eq. by destruct (m !! k).
  - by rewrite !lookup_alter_ne.
Qed.

(** X5: asking twice is asking once.  A second [get_app_status] for the
    same name, with nothing happening in between, gives the answer of the
    first and leaves the state the first left. *)
Theorem get_app_status_idempotent (app_name : string) (st : State) :
  get_app_status app_name (get_app_status app_name st).2
  = get_app_status app_name st.
Proof.
  rewrite (get_app_status_unfold app_name st).
  destruct (launched_apps st !! app_name) as [r|] eqn:Er.
  - destruct (children st !! process r ≫= returncode) as [c|] eqn:Ep; cbn [snd].
    + rewrite get_app_status_unfold. cbn [launched_apps set_launched_apps children].
      rewrite lookup_alter_eq, Er. cbn [fmap option_fmap option_map process port set_status].
      rewrite Ep. f_equal. unfold set_launched_apps.
      cbn [launched_apps children bound clock]. f_equal. apply set_status_twice.
    + by rewrite get_app_status_unfold, Er, Ep.
  - cbn. by rewrite get_app_status_unfold, Er.
Qed.

(** X6: the stored status is written and never read.  Whatever the
    status fields of the registry hold, [get_app_status] and [stop_app]
    give the same answer and [stop_app] does the same to the process
    table: both go by the poll of the child alone. *)
Theorem stored_status_never_read (f : string -> string) (host : Host)
    (app_name : string) (st : State) :
  (get_app_status app_name (restatus f st)).1 = (get_app_status app_name st).1
  /\ (stop_app host app_name (restatus f st)).1 = (stop_app host app_name st).1
  /\ children (stop_app host app_name (restatus f st)).2
     = children (stop_app host app_name st).2.
Proof.
  rewrite !get_app_status_unfold, !stop_app_unfold. unfold restatus. cbn.
  rewrite lookup_fmap.
  destruct (launched_apps st !! app_name) as [r|]; cbn; [|done].
  by destruct (children st !! process r ≫= returncode).
Qed.

(** ** Ports are not reserved *)

Lemma can_bind_bound (host : Host) (st st' : State) (q : Z) :
  bound st' = bound st -> can_bind host st' q = can_bind host st q.
Proof. intros E. unfold can_bind. by rewrite E. Qed.

(** X7: the scan reserves nothing.  When two launches succeed one after
    the other on a host that has not changed in between (no process has
    bound a port yet), both applications are given the same port. *)
Theorem launches_share_port (host : Host) (n1 n2 : string) (st st1 st2 : State)
    (d1 d2 : dict) :
  launch_app host n1 st = (Ok d1, st1) ->
  get "status" d1 = Some (VStr "success") ->
  launch_app host n2 st1 = (Ok d2, st2) ->
  get "status" d2 = Some (VStr "success") ->
  exists p r1 r2,
    launched_apps st1 !! n1 = Some r1 /\ port r1 = p
    /\ launched_apps st2 !! n2 = Some r2 /\ port r2 = p
    /\ d1 = launch_success n1 p /\ d2 = launch_success n2 p.
Proof.
  intros E1 Hd1 E2 Hd2.
  destruct (launch_app_outcome host n1 st) as (d & s & E & H).
  rewrite E1 in E. injection E as <- <-.
  destruct H as [H|[H _]]; [|destruct H; discriminate Hd1].
  destruct H as [script exec p b _ _ Ef _].
  destruct (launch_app_outcome host n2
              {| launched_apps :=
                   <[n1 := {| process := length (children st); port := p;
                              status := "running" |}]> (launched_apps st);
                 children := children st ++ [spawned_child host script exec p b];
                 bound := bound st; clock := clock st |}) as (d & s & E & H).
  rewrite E2 in E. injection E as <- <-.
  destruct H as [H|[H _]]; [|destruct H; discriminate Hd2].
  destruct H as [script' exec' p' b' _ _ Ef' _].
  assert (p' = p) as ->.
  { pose proof (find_free_port_default host st) as [_ H1].
    rewrite Ef in H1. cbn in H1. destruct H1 as (R1 & B1 & M1).
    match type of Ef' with find_free_port _ _ ?s = _ =>
      pose proof (find_free_port_default host s) as [_ H2];
      rewrite Ef' in H2; cbn [fst] in H2;
      assert (forall q, can_bind host s q = can_bind host st q) as Hcb
        by (intros q; by apply can_bind_bound)
    end.
    destruct H2 as (R2 & B2 & M2). rewrite Hcb in B2.
    destruct (Z.lt_trichotomy p' p) as [Hlt|[->|Hgt]]; [|done|].
    - rewrite M1 in B2 by lia. done.
    - specialize (M2 p ltac:(lia)). rewrite Hcb in M2. congruence. }
  eexists p, _, _. cbn [launched_apps].
  rewrite !lookup_insert_eq. by repeat split.
Qed.

Lemma launches_share_port_witness :
  exists p r1 r2,
    launched_apps alpha_launched !! "Alpha" = Some r1 /\ port r1 = p
    /\ launched_apps (run both_launched initial) !! "Gamma" = Some r2 /\ port r2 = p
    /\ launch_success "Alpha" 8001 = launch_success "Alpha" p
    /\ launch_success "Gamma" 8001 = launch_success "Gamma" p.
Proof.
  apply (launches_share_port linux_host "Alpha" "Gamma" initial); reflexivity.
Defined.

(** ** Script paths on POSIX hosts *)

Lemma prefix_app (p s : string) : String.prefix p (p +:+ s) = true.
Proof.
  induction p as [|a p IH].
  - change ("" +:+ s) with s. by destruct s.
  - change (String a p +:+ s) with (String a (p +:+ s)). cbn [String.prefix].
    destruct (Ascii.ascii_dec a a); [apply IH|done].
Qed.

Lemma resolve_posix (host : Host) (app_name : string) :
  path_join host = posixpath_join ->
  system host = "Darwin" \/ system host = "Linux" ->
  resolve host app_name
  = Some (posixpath_join (posixpath_join "apps" app_name) "run.sh", ["sh"]).
Proof. intros Ej Hs. unfold resolve. rewrite Ej. by destruct Hs as [-> | ->]. Qed.

(** X8: on a Darwin or Linux host, where [os.path.join] is
    [posixpath.join], an application name that starts with a slash makes
    [launch_app] leave the [apps] directory: the script it looks for, and
    hands to [sh] when it exists, is [run.sh] under the name itself.  For
    every other name, the empty one included, the script is the join of
    [apps], the name and [run.sh], and lies under [apps/]. *)
Theorem posix_script_path (host : Host) (app_name : string) (st : State) :
  path_join host = posixpath_join ->
  system host = "Darwin" \/ system host = "Linux" ->
  (String.prefix "/" app_name = true ->
   runs_script host app_name st (posixpath_join app_name "run.sh") ["sh"] 0)
  /\ (String.prefix "/" app_name = false ->
      runs_script host app_name st
        (posixpath_join ("apps" +:+ "/" +:+ app_name) "run.sh") ["sh"] 0
      /\ String.prefix "apps/"
           (posixpath_join ("apps" +:+ "/" +:+ app_name) "run.sh") = true).
Proof.
  intros Ej Hs.
  pose proof (launch_app_runs_resolved host app_name st _ _
                (resolve_posix host app_name Ej Hs)) as H.
  assert ((if String.eqb (system host) "Windows" then CREATE_NO_WINDOW else 0) = 0)
    as E0 by (by destruct Hs as [-> | ->]).
  rewrite E0 in H. clear E0. split; intros Hp.
  - unfold posixpath_join at 2 in H. by rewrite Hp in H.
  - unfold posixpath_join at 2 in H. rewrite Hp in H.
    change (String.eqb "apps" "" || _) with false in H. cbv iota in H.
    split; [exact H|].
    unfold posixpath_join.
    change (String.prefix "/" "run.sh") with false. cbv iota.
    destruct (_ || _).
    + change (String.prefix "apps/" ("apps/" +:+ (app_name +:+ "run.sh")) = true).
      apply prefix_app.
    + change (String.prefix "apps/" ("apps/" +:+ (app_name +:+ "/" +:+ "run.sh"))
              = true).
      apply prefix_app.
Qed.

Lemma posix_script_path_witness :
  launch_app linux_host_srv "/srv/other" initial
  = (Ok (launch_success "/srv/other" 8000),
     {| launched_apps :=
          <["/srv/other" := {| process := 0; port := 8000; status := "running" |}]> ∅;
        children :=
          [{| argv := ["sh"; "/srv/other/run.sh"];
              penv := <["PORT" := "8000"]> ∅;
              creationflags := 0; on_sigterm := None;
              signals := []; returncode := None |}];
        bound := ∅; clock := 0 |})
  /\ launch_app linux_host_srv "" initial
     = (Ok (launch_success "" 8000),
        {| launched_apps :=
             <["" := {| process := 0; port := 8000; status := "running" |}]> ∅;
           children :=
             [{| argv := ["sh"; "apps/run.sh"];
                 penv := <["PORT" := "8000"]> ∅;
                 creationflags := 0; on_sigterm := None;
                 signals := []; returncode := None |}];
           bound := ∅; clock := 0 |})
  /\ launch_app linux_host "/srv/other" initial
     = (Ok (script_not_found_error "/srv/other" "/srv/other/run.sh"), initial)
  /\ String.prefix "apps/" "apps/Alpha/run.sh" = true.
Proof.
  split; [|split; [|split]].
  - exact (proj1 (proj2 (proj1 (posix_script_path linux_host_srv "/srv/other" initial
                                  eq_refl (or_intror eq_refl)) eq_refl))
             8000 eq_refl eq_refl).
  - exact (proj1 (proj2 (proj1 (proj2 (posix_script_path linux_host_srv "" initial
                                         eq_refl (or_intror eq_refl)) eq_refl)))
             8000 eq_refl eq_refl).
  - exact (proj1 (proj1 (posix_script_path linux_host "/srv/other" initial
                           eq_refl (or_intror eq_refl)) eq_refl) eq_refl).
  - exact (proj2 (proj2 (posix_script_path linux_host "Alpha" initial
                           eq_refl (or_intror eq_refl)) eq_refl)).
Defined.

Example empty_name_script :
  resolve linux_host "" = Some ("apps/run.sh", ["sh"]).
Proof. reflexivity. Qed.

(** ** Exit codes *)

(** X10: an exit is reported once and for all.  When [get_app_status]
    answers [exited] for a name, it gives the very same answer, port and
    exit code included, after every later history of calls and child
    exits that does not launch the name again. *)
Theorem exited_answer_stable (app_name : string) (st : State) (d : dict)
    (evs : list event) :
  (get_app_status app_name st).1 = Ok d ->
  get "status" d = Some (VStr "exited") ->
  Forall (keeps_record app_name) evs ->
  (get_app_status app_name (run evs st)).1 = Ok d.
Proof.
  intros E Hd Hall. rewrite get_app_status_unfold in E.
  destruct (launched_apps st !! app_name) as [r|] eqn:Er.
  2: { injection E as <-. discriminate Hd. }
  destruct (children st !! process r) as [p|] eqn:Ep; cbn in E.
  2: { injection E as <-. discriminate Hd. }
  destruct (returncode p) as [c|] eqn:Ec.
  2: { injection E as <-. discriminate Hd. }
  injection E as <-.
  apply terminated_record_status, terminated_record_run; [|done].
  by exists r, p.
Qed.

Lemma exited_answer_stable_witness :
  (get_app_status "Alpha"
     (run [Stop linux_host "Alpha"; GetStatus "Alpha"; Launch linux_host "Gamma";
           ChildExit 0 7] alpha_exited)).1
  = Ok [("status", VStr "exited"); ("port", VInt 8001); ("exit_code", VInt 0)].
Proof.
  apply (exited_answer_stable "Alpha" alpha_exited); [reflexivity..|].
  repeat constructor. discriminate.
Defined.
